(** * Partition index mapping of FiPy's [Grid1D]

    A shallow embedding of the eight ID-range properties of the class
    [Grid1D] in [fipy/meshes/grid1D.py], and the proofs of the range, shift,
    partition and totality properties stated about them.

    Python integers are unbounded, so every count, offset and ID is a [Z].
    [self.overlap] is a Python dict read at the keys ['left'] and ['right'];
    it is a [gmap string Z] here, and reading a missing key (Python's
    [KeyError]) makes the property return [None].

    The file ends with further properties of the same code: how the owned
    IDs sit inside the overlapping ones, how the ranges of two neighbouring
    workers meet, when a property fails, and what [__repr__] shows. *)

From stdpp Require Import gmap strings pretty list list_numbers sorting.

Local Open Scope Z_scope.

(** ** The range constructor *)

(** Modelled from the spec: [numerix.arange] is not defined in [grid1D.py]
    ([fipy.tools.numerix] re-exports NumPy's [arange]).  Called with two
    integers it is the spec's "strictly increasing, contiguous sequence of
    integers over a half-open range [lo, hi) (empty if lo >= hi)":
    [start, start + 1, ..., stop - 1], of length [max 0 (stop - start)]. *)
Definition arange (start stop : Z) : list Z := seqZ start (stop - start).

(** ** The resolved geometry held by a [Grid1D] object

    Of the attributes unpacked from [builder.gridData] in [__init__], the
    four that the ID properties read. *)
Record Grid1D : Type := mkGrid1D {
  nx : Z;
  overlap : gmap string Z;
  offset : Z;
  numberOfFaces : Z
}.

(** ** The eight properties, in the order of the source *)

Definition _globalNonOverlappingCellIDs (self : Grid1D) : option (list Z) :=
  l ← overlap self !! "left";
  r ← overlap self !! "right";
  Some (arange (offset self + l) (offset self + nx self - r)).

Definition _globalOverlappingCellIDs (self : Grid1D) : option (list Z) :=
  Some (arange (offset self) (offset self + nx self)).

Definition _localNonOverlappingCellIDs (self : Grid1D) : option (list Z) :=
  l ← overlap self !! "left";
  r ← overlap self !! "right";
  Some (arange l (nx self - r)).

Definition _localOverlappingCellIDs (self : Grid1D) : option (list Z) :=
  Some (arange 0 (nx self)).

Definition _globalNonOverlappingFaceIDs (self : Grid1D) : option (list Z) :=
  l ← overlap self !! "left";
  r ← overlap self !! "right";
  Some (arange (offset self + l) (offset self + numberOfFaces self - r)).

Definition _globalOverlappingFaceIDs (self : Grid1D) : option (list Z) :=
  Some (arange (offset self) (offset self + numberOfFaces self)).

Definition _localNonOverlappingFaceIDs (self : Grid1D) : option (list Z) :=
  l ← overlap self !! "left";
  r ← overlap self !! "right";
  Some (arange l (numberOfFaces self - r)).

Definition _localOverlappingFaceIDs (self : Grid1D) : option (list Z) :=
  Some (arange 0 (numberOfFaces self)).

(** ** Geometries with a two-key overlap dict *)

(** [overlap = {'left': l, 'right': r}]. *)
Definition packOverlap (l r : Z) : gmap string Z :=
  <["left" := l]> (<["right" := r]> ∅).

Definition geometry (off l r n nf : Z) : Grid1D :=
  {| nx := n; overlap := packOverlap l r; offset := off; numberOfFaces := nf |}.

(** The dict of [self] has the entries ['left': l] and ['right': r]
    (and possibly others, which no property reads). *)
Definition has_overlap (self : Grid1D) (l r : Z) : Prop :=
  overlap self !! "left" = Some l ∧ overlap self !! "right" = Some r.

(** ** Vocabulary of the statements *)

(** [s] is the half-open range [lo, hi): strictly increasing, with exactly
    the integers from [lo] up to but excluding [hi] as members. *)
Definition is_range (lo hi : Z) (s : list Z) : Prop :=
  StronglySorted Z.lt s ∧ ∀ x, x ∈ s ↔ lo ≤ x < hi.

(** The call returns, without error, the range [lo, hi). *)
Definition returns_range (res : option (list Z)) (lo hi : Z) : Prop :=
  ∃ s, res = Some s ∧ is_range lo hi s.

(** Consecutive elements differ by exactly one (vacuous for length < 2). *)
Definition contiguous (s : list Z) : Prop :=
  ∀ (i : nat) x y, s !! i = Some x → s !! S i = Some y → y = x + 1.

(** The call returns a sequence that is empty, or strictly increasing in
    steps of one. *)
Definition returns_contiguous (res : option (list Z)) : Prop :=
  ∃ s, res = Some s ∧ (s = [] ∨ (StronglySorted Z.lt s ∧ contiguous s)).

(** [t] is [s] with [d] added to each element. *)
Definition shifted_by (d : Z) (s t : list Z) : Prop :=
  length t = length s ∧ ∀ (i : nat) x, s !! i = Some x → t !! i = Some (x + d).

Definition global_of_local (d : Z) (loc glob : option (list Z)) : Prop :=
  ∃ s t, loc = Some s ∧ glob = Some t ∧ shifted_by d s t.

(** The call returns a sequence (no error) of length [max 0 (hi - lo)],
    which is the empty one as soon as [hi <= lo]. *)
Definition returns_total (res : option (list Z)) (lo hi : Z) : Prop :=
  ∃ s, res = Some s ∧ Z.of_nat (length s) = Z.max 0 (hi - lo) ∧
       (hi ≤ lo → s = []).

(** The call returns a sequence whose length is the negative difference
    [hi - lo] of its bounds. *)
Definition returns_negative_length (res : option (list Z)) (lo hi : Z) : Prop :=
  hi - lo < 0 ∧ ∃ s, res = Some s ∧ Z.of_nat (length s) = hi - lo.

(** The ranges of the workers, taken together, hold each ID of [0, n) once
    and nothing else. *)
Definition covers_exactly_once (ranges : list (list Z)) (n : Z) : Prop :=
  NoDup (concat ranges) ∧ ∀ x, x ∈ concat ranges ↔ 0 ≤ x < n.

(** The invariants of the data model, for a worker of a grid of
    [globalCells] cells. *)
Definition meets_invariants (globalCells : Z) (self : Grid1D) : Prop :=
  ∃ l r, has_overlap self l r ∧ 0 ≤ l ∧ 0 ≤ r ∧ l + r ≤ nx self ∧
         0 ≤ offset self ∧ offset self + nx self ≤ globalCells ∧
         numberOfFaces self = nx self + 1 ∧
         offset self + numberOfFaces self ≤ globalCells + 1.

(** ** Concrete geometries *)

(** The two-worker scenario: 4 cells / 5 faces split 2 + 2 with a one-cell
    halo; each worker has [nx = 3], hence 4 local faces. *)
Definition workerA : Grid1D := geometry 0 0 1 3 4.
Definition workerB : Grid1D := geometry 1 1 0 3 4.

(** One cell, ghost on both sides: [l + r = 2 > nx = 1]. *)
Definition all_ghost : Grid1D := geometry 0 1 1 1 2.

(** ** Decomposition of one global grid over several workers *)

(** The right halo of a worker followed by [neighbours]. *)
Definition halo_towards (neighbours : list Z) : Z :=
  match neighbours with [] => 0 | _ :: _ => 1 end.

(** Modelled from the spec: the Grid Builder that resolves the per-worker
    geometry is not part of [grid1D.py] ([NonuniformGrid1DBuilder] is
    imported).  Following the spec's data model and its two-worker scenario:
    the workers own consecutive slabs of [owned] cells of the global grid;
    a worker holds one ghost cell on each side where it has a neighbour and
    none at the ends of the domain; [nx] counts owned and ghost cells;
    [offset] is the global ID of local cell 0, i.e. the first owned cell
    minus the left ghost; the local face count is [nx + 1].
    [start] is the global ID of the first owned cell and [left] the left
    halo of the worker at the head of the list. *)
Fixpoint workers (start left : Z) (owned : list Z) : list Grid1D :=
  match owned with
  | [] => []
  | k :: rest =>
      let right := halo_towards rest in
      let n := left + k + right in
      geometry (start - left) left right n (n + 1)
        :: workers (start + k) 1 rest
  end.

Definition decompose (owned : list Z) : list Grid1D := workers 0 0 owned.

Definition globalNumberOfCells (owned : list Z) : Z := foldr Z.add 0 owned.

Definition globalNumberOfFaces (owned : list Z) : Z :=
  globalNumberOfCells owned + 1.

(** Global IDs of the faces at which two neighbouring slabs meet. *)
Fixpoint joins (start : Z) (owned : list Z) : list Z :=
  match owned with
  | [] => []
  | k :: rest =>
      match rest with
      | [] => []
      | _ :: _ => (start + k) :: joins (start + k) rest
      end
  end.

(** ** Vocabulary for relations between the ranges *)

(** Both calls return, and the first result is a subsequence of the second
    (same elements in the same order, some left out). *)
Definition subsequence_of (inner outer : option (list Z)) : Prop :=
  ∃ s t, inner = Some s ∧ outer = Some t ∧ s `sublist_of` t.

(** Both calls return, and [outer] is [inner] with [l] more IDs in front
    and [r] more IDs behind. *)
Definition framed_by (l r : Z) (inner outer : option (list Z)) : Prop :=
  ∃ s t front back,
    inner = Some s ∧ outer = Some t ∧ t = front ++ s ++ back ∧
    Z.of_nat (length front) = l ∧ Z.of_nat (length back) = r.

(** All three calls return; every element [j] of [ids] is a non-negative
    position inside [arr], and [picked] lists, in the order of [ids], what
    [arr] holds at those positions. *)
Definition gathers (ids arr picked : option (list Z)) : Prop :=
  ∃ s t u,
    ids = Some s ∧ arr = Some t ∧ picked = Some u ∧ length u = length s ∧
    ∀ (i : nat) j, s !! i = Some j →
      0 ≤ j ∧ is_Some (t !! Z.to_nat j) ∧ t !! Z.to_nat j = u !! i.

(** The call returns, and every ID it returns lies in [lo, hi). *)
Definition all_within (res : option (list Z)) (lo hi : Z) : Prop :=
  ∃ s, res = Some s ∧ Forall (λ x, lo ≤ x < hi) s.

(** Both calls return, and the second result is the first one followed by
    the single ID [x]. *)
Definition extended_by (x : Z) (shorter longer : option (list Z)) : Prop :=
  ∃ s, shorter = Some s ∧ longer = Some (s ++ [x]).

(** The overlap dict has no entry ['left'] or no entry ['right']. *)
Definition lacks_overlap_key (self : Grid1D) : Prop :=
  overlap self !! "left" = None ∨ overlap self !! "right" = None.

(** ** [__repr__]

    [self.args] is the dict [{'dx': dx, 'nx': nx, 'overlap': overlap}] that
    [__init__] stores; its three keys are always there, so it is a record.
    [dx] (a float, a tuple, a physical quantity) enters [__repr__] only
    through [str(dx)], which is the given string [args_dx]; [nx] is [None]
    or an integer, which ['%d'] prints in decimal, with a minus sign when
    negative.  [class_name] is [self.__class__.__name__]. *)
Record Args : Type := mkArgs {
  args_dx : string;
  args_nx : option Z;
  args_overlap : Z
}.

Definition __repr__ (class_name : string) (args : Args) : string :=
  match args_nx args with
  | None => class_name +:+ "(dx=" +:+ args_dx args +:+ ")"
  | Some n =>
      class_name +:+ "(dx=" +:+ args_dx args +:+ ", nx=" +:+ pretty n +:+ ")"
  end.

(** ** Facts about [arange] *)

Section arange_facts.
Implicit Types start stop lo mid hi d x : Z.

Lemma arange_nil start stop : stop ≤ start → arange start stop = [].
Proof. intros H. unfold arange. apply seqZ_nil. lia. Qed.

Lemma arange_cons start stop :
  start < stop → arange start stop = start :: arange (start + 1) stop.
Proof.
  intros H. unfold arange. rewrite seqZ_cons by lia.
  f_equal. f_equal; lia.
Qed.

Lemma length_arange start stop :
  length (arange start stop) = Z.to_nat (stop - start).
Proof. apply length_seqZ. Qed.

Lemma lookup_arange start stop (i : nat) x :
  arange start stop !! i = Some x
  ↔ x = start + Z.of_nat i ∧ start + Z.of_nat i < stop.
Proof. unfold arange. rewrite lookup_seqZ. intuition lia. Qed.

Lemma elem_of_arange start stop x : x ∈ arange start stop ↔ start ≤ x < stop.
Proof. unfold arange. rewrite elem_of_seqZ. intuition lia. Qed.

Lemma NoDup_arange start stop : NoDup (arange start stop).
Proof. apply NoDup_seqZ. Qed.

Lemma arange_app lo mid hi :
  lo ≤ mid → mid ≤ hi → arange lo hi = arange lo mid ++ arange mid hi.
Proof.
  intros H1 H2. unfold arange.
  replace (hi - lo) with ((mid - lo) + (hi - mid)) by lia.
  rewrite seqZ_app by lia. do 2 f_equal; lia.
Qed.

Lemma arange_sorted start stop : StronglySorted Z.lt (arange start stop).
Proof.
  unfold arange. generalize (stop - start). intros n. revert start.
  induction (Z.to_nat n) as [|k IH] eqn:Hk in n |- *; intros start.
  - rewrite seqZ_nil by lia. constructor.
  - rewrite seqZ_cons by lia. constructor.
    + apply IH. lia.
    + apply Forall_seqZ. intros; lia.
Qed.

Lemma arange_is_range lo hi : is_range lo hi (arange lo hi).
Proof. split; [apply arange_sorted | intros x; apply elem_of_arange]. Qed.

Lemma arange_contiguous lo hi : contiguous (arange lo hi).
Proof.
  intros i x y Hx Hy.
  apply lookup_arange in Hx as [-> _]. apply lookup_arange in Hy as [-> _].
  lia.
Qed.

Lemma arange_shifted_by d lo hi lo' hi' :
  lo' = lo + d → hi' = hi + d → shifted_by d (arange lo hi) (arange lo' hi').
Proof.
  intros -> ->. split.
  - rewrite !length_arange. f_equal. lia.
  - intros i x [-> Hi]%lookup_arange. apply lookup_arange. lia.
Qed.

Lemma StronglySorted_lt_NoDup (s : list Z) : StronglySorted Z.lt s → NoDup s.
Proof.
  induction 1 as [|x k _ IH Hall]; constructor; [|done].
  intros Hin. rewrite Forall_forall in Hall. specialize (Hall x Hin). lia.
Qed.

(** A strictly increasing list with the members of [lo, hi) is
    [arange lo hi]: [is_range] pins the sequence down, order included. *)
Lemma is_range_unique lo hi (s : list Z) : is_range lo hi s ↔ s = arange lo hi.
Proof.
  split; [|intros ->; apply arange_is_range].
  intros [Hs Hm]. destruct (arange_is_range lo hi) as [Hs' Hm'].
  apply (StronglySorted_unique_strong Z.lt); [intros; lia|done|done|].
  apply NoDup_Permutation; [by apply StronglySorted_lt_NoDup..|].
  intros x. by rewrite Hm, Hm'.
Qed.

Lemma Some_arange_returns_range lo hi lo' hi' :
  lo = lo' → hi = hi' → returns_range (Some (arange lo hi)) lo' hi'.
Proof. intros -> ->. eexists; split; [done|apply arange_is_range]. Qed.

Lemma Some_arange_returns_contiguous lo hi :
  returns_contiguous (Some (arange lo hi)).
Proof.
  eexists; split; [done|]. right.
  split; [apply arange_sorted|apply arange_contiguous].
Qed.

Lemma Some_arange_returns_total lo hi :
  returns_total (Some (arange lo hi)) lo hi.
Proof.
  eexists; split; [done|].
  split; [rewrite length_arange; lia|apply arange_nil].
Qed.
End arange_facts.

(** Unfold the eight properties on a dict [H : has_overlap self l r]. *)
Ltac read_overlap H :=
  let Hl := fresh "Hl" in
  let Hr := fresh "Hr" in
  pose proof H as [Hl Hr];
  unfold _globalNonOverlappingCellIDs, _localNonOverlappingCellIDs,
    _globalNonOverlappingFaceIDs, _localNonOverlappingFaceIDs,
    _globalOverlappingCellIDs, _localOverlappingCellIDs,
    _globalOverlappingFaceIDs, _localOverlappingFaceIDs;
  rewrite ?Hl, ?Hr; simpl.

Lemma has_overlap_geometry off l r n nf :
  has_overlap (geometry off l r n nf) l r.
Proof.
  unfold has_overlap, geometry, packOverlap; simpl. split.
  - apply lookup_insert_eq.
  - rewrite lookup_insert_ne by done. apply lookup_insert_eq.
Qed.

(** The only way a property can fail is a dict without one of its keys. *)
Example missing_key_is_an_error :
  _localNonOverlappingCellIDs
    {| nx := 3; overlap := {["left" := 0]}; offset := 0; numberOfFaces := 4 |}
  = None.
Proof. reflexivity. Qed.

(** ** Properties of one geometry *)

Section one_geometry.
Variables (self : Grid1D) (l r : Z).
Hypothesis Hoverlap : has_overlap self l r.

(** C1. For every geometry whose overlap dict holds [left = l] and
    [right = r], the four cell-ID properties return the half-open ranges
    of the table: local overlapping [0, nx), local non-overlapping
    [l, nx - r), global overlapping [offset, offset + nx) and global
    non-overlapping [offset + l, offset + nx - r). *)
Theorem cell_ids_are_ranges :
  returns_range (_localOverlappingCellIDs self) 0 (nx self) ∧
  returns_range (_localNonOverlappingCellIDs self) l (nx self - r) ∧
  returns_range (_globalOverlappingCellIDs self)
    (offset self) (offset self + nx self) ∧
  returns_range (_globalNonOverlappingCellIDs self)
    (offset self + l) (offset self + nx self - r).
Proof.
  read_overlap Hoverlap.
  repeat split; by apply Some_arange_returns_range.
Qed.

(** C2. For every geometry whose overlap dict holds [left = l] and
    [right = r], the four face-ID properties return the half-open ranges
    of the table: local overlapping [0, numberOfFaces), local
    non-overlapping [l, numberOfFaces - r), global overlapping
    [offset, offset + numberOfFaces) and global non-overlapping
    [offset + l, offset + numberOfFaces - r). *)
Theorem face_ids_are_ranges :
  returns_range (_localOverlappingFaceIDs self) 0 (numberOfFaces self) ∧
  returns_range (_localNonOverlappingFaceIDs self)
    l (numberOfFaces self - r) ∧
  returns_range (_globalOverlappingFaceIDs self)
    (offset self) (offset self + numberOfFaces self) ∧
  returns_range (_globalNonOverlappingFaceIDs self)
    (offset self + l) (offset self + numberOfFaces self - r).
Proof.
  read_overlap Hoverlap.
  repeat split; by apply Some_arange_returns_range.
Qed.

(** C5. For every geometry (overlap dict with [left = l], [right = r]),
    for cells and for faces, overlapping and non-overlapping: the global
    IDs are the local IDs shifted by [offset], i.e. both sequences have
    the same length and the i-th global ID is the i-th local ID plus
    [offset]. *)
Theorem global_ids_are_local_plus_offset :
  global_of_local (offset self)
    (_localOverlappingCellIDs self) (_globalOverlappingCellIDs self) ∧
  global_of_local (offset self)
    (_localNonOverlappingCellIDs self) (_globalNonOverlappingCellIDs self) ∧
  global_of_local (offset self)
    (_localOverlappingFaceIDs self) (_globalOverlappingFaceIDs self) ∧
  global_of_local (offset self)
    (_localNonOverlappingFaceIDs self) (_globalNonOverlappingFaceIDs self).
Proof.
  read_overlap Hoverlap.
  repeat split; (do 2 eexists; split; [done|split; [done|]]);
    apply arange_shifted_by; lia.
Qed.

(** C8. Each of the eight properties yields a finite sequence that is
    empty or strictly increasing with consecutive elements differing by
    exactly one.  This holds for every geometry whose overlap dict has
    both keys, hence for every geometry that meets the invariants
    (non-negative offset, [l + r <= nx], [l + r <= numberOfFaces]). *)
Theorem ids_are_contiguous :
  (returns_contiguous (_localOverlappingCellIDs self) ∧
   returns_contiguous (_localNonOverlappingCellIDs self) ∧
   returns_contiguous (_globalOverlappingCellIDs self) ∧
   returns_contiguous (_globalNonOverlappingCellIDs self)) ∧
  (returns_contiguous (_localOverlappingFaceIDs self) ∧
   returns_contiguous (_localNonOverlappingFaceIDs self) ∧
   returns_contiguous (_globalOverlappingFaceIDs self) ∧
   returns_contiguous (_globalNonOverlappingFaceIDs self)).
Proof.
  read_overlap Hoverlap.
  repeat split; apply Some_arange_returns_contiguous.
Qed.

(** C9. Every one of the eight properties is total on integer geometries
    (overlap dict with [left = l], [right = r]; no condition on signs or
    sizes, so the empty mesh [nx = 0] and geometries that break the
    invariants are included): it returns a sequence, never an error, and
    the sequence is empty whenever the upper bound is at most the lower
    bound; its length is [max 0 (upper - lower)], never negative. *)
Theorem ids_are_total :
  (returns_total (_localOverlappingCellIDs self) 0 (nx self) ∧
   returns_total (_localNonOverlappingCellIDs self) l (nx self - r) ∧
   returns_total (_globalOverlappingCellIDs self)
     (offset self) (offset self + nx self) ∧
   returns_total (_globalNonOverlappingCellIDs self)
     (offset self + l) (offset self + nx self - r)) ∧
  (returns_total (_localOverlappingFaceIDs self) 0 (numberOfFaces self) ∧
   returns_total (_localNonOverlappingFaceIDs self)
     l (numberOfFaces self - r) ∧
   returns_total (_globalOverlappingFaceIDs self)
     (offset self) (offset self + numberOfFaces self) ∧
   returns_total (_globalNonOverlappingFaceIDs self)
     (offset self + l) (offset self + numberOfFaces self - r)).
Proof.
  read_overlap Hoverlap.
  repeat split; apply Some_arange_returns_total.
Qed.

(** C4, amended. No property validates the geometry; on a geometry with
    [l + r > nx] the two non-overlapping cell properties raise no error
    and return the empty sequence, and with [l + r > numberOfFaces] so do
    the two non-overlapping face properties; the overlapping properties
    return as for any other geometry. *)
Theorem invalid_overlap_gives_empty :
  (nx self < l + r →
   _localNonOverlappingCellIDs self = Some [] ∧
   _globalNonOverlappingCellIDs self = Some []) ∧
  (numberOfFaces self < l + r →
   _localNonOverlappingFaceIDs self = Some [] ∧
   _globalNonOverlappingFaceIDs self = Some []) ∧
  is_Some (_localOverlappingCellIDs self) ∧
  is_Some (_globalOverlappingCellIDs self) ∧
  is_Some (_localOverlappingFaceIDs self) ∧
  is_Some (_globalOverlappingFaceIDs self).
Proof.
  read_overlap Hoverlap.
  repeat split; try done; rewrite arange_nil by lia; done.
Qed.
End one_geometry.

Lemma cell_ids_are_ranges_witness :
  has_overlap workerB 1 0 ∧
  returns_range (_globalNonOverlappingCellIDs workerB) (1 + 1) (1 + 3 - 0).
Proof.
  split; [split; reflexivity|].
  apply (cell_ids_are_ranges workerB 1 0). split; reflexivity.
Defined.

Lemma face_ids_are_ranges_witness :
  has_overlap workerA 0 1 ∧
  returns_range (_globalNonOverlappingFaceIDs workerA) (0 + 0) (0 + 4 - 1).
Proof.
  split; [split; reflexivity|].
  apply (face_ids_are_ranges workerA 0 1). split; reflexivity.
Defined.

Lemma global_ids_are_local_plus_offset_witness :
  has_overlap workerB 1 0 ∧
  global_of_local 1
    (_localNonOverlappingFaceIDs workerB) (_globalNonOverlappingFaceIDs workerB).
Proof.
  split; [split; reflexivity|].
  apply (global_ids_are_local_plus_offset workerB 1 0). split; reflexivity.
Defined.

Lemma ids_are_contiguous_witness :
  has_overlap workerB 1 0 ∧
  returns_contiguous (_globalNonOverlappingCellIDs workerB).
Proof.
  split; [split; reflexivity|].
  apply (ids_are_contiguous workerB 1 0). split; reflexivity.
Defined.

Lemma ids_are_total_witness :
  has_overlap (geometry 0 0 0 0 0) 0 0 ∧
  returns_total (_localNonOverlappingCellIDs (geometry 0 0 0 0 0)) 0 (0 - 0).
Proof.
  split; [split; reflexivity|].
  apply (ids_are_total (geometry 0 0 0 0 0) 0 0). split; reflexivity.
Defined.

Lemma invalid_overlap_gives_empty_witness :
  has_overlap all_ghost 1 1 ∧ nx all_ghost < 1 + 1 ∧
  _localNonOverlappingCellIDs all_ghost = Some [] ∧
  _globalNonOverlappingCellIDs all_ghost = Some [].
Proof.
  split; [split; reflexivity|]. split; [reflexivity|].
  refine (proj1 (invalid_overlap_gives_empty all_ghost 1 1 _) _);
    [split; reflexivity|reflexivity].
Defined.

Example all_ghost_cells_empty :
  _localNonOverlappingCellIDs all_ghost = Some [] ∧
  _globalNonOverlappingCellIDs all_ghost = Some [].
Proof. split; reflexivity. Qed.

(** C4, as stated, fails: no geometry with [l + r > nx] makes a
    non-overlapping cell property return a sequence of negative length; at
    [all_ghost] the bounds are [1, 0) and the result has length 0, not -1. *)
Lemma no_negative_length_range :
  ¬ (∃ self l r, has_overlap self l r ∧ nx self < l + r ∧
       returns_negative_length
         (_localNonOverlappingCellIDs self) l (nx self - r)) ∧
  ¬ returns_negative_length (_localNonOverlappingCellIDs all_ghost) 1 (1 - 1).
Proof.
  split.
  - intros (self & l & r & _ & _ & Hneg & s & _ & Hlen). lia.
  - intros (Hneg & s & _ & Hlen). lia.
Qed.

(** ** Concrete and degenerate geometries *)

(** C6. Worker A (offset 0, overlap left 0 right 1, nx 3) has local
    non-overlapping cells [0,2), local overlapping [0,3), global
    non-overlapping [0,2), global overlapping [0,3); worker B (offset 1,
    overlap left 1 right 0, nx 3) has local non-overlapping cells [1,3),
    global non-overlapping [2,4), global overlapping [1,4). *)
Theorem two_worker_scenario_cells :
  (_localNonOverlappingCellIDs workerA = Some [0; 1] ∧
   _localOverlappingCellIDs workerA = Some [0; 1; 2] ∧
   _globalNonOverlappingCellIDs workerA = Some [0; 1] ∧
   _globalOverlappingCellIDs workerA = Some [0; 1; 2]) ∧
  (_localNonOverlappingCellIDs workerB = Some [1; 2] ∧
   _globalNonOverlappingCellIDs workerB = Some [2; 3] ∧
   _globalOverlappingCellIDs workerB = Some [1; 2; 3]).
Proof. repeat split; reflexivity. Qed.

(** C7. Serial geometry: with [offset = 0], [overlap = {left: 0, right: 0}]
    and [numberOfFaces = nx + 1], the four cell properties all return one
    and the same sequence, the range [0, nx), and the four face properties
    all return the range [0, nx + 1); the properties applied are the general
    ones. *)
Theorem serial_ids_collapse (self : Grid1D) :
  has_overlap self 0 0 → offset self = 0 → numberOfFaces self = nx self + 1 →
  (∃ s, is_range 0 (nx self) s ∧
        _localOverlappingCellIDs self = Some s ∧
        _localNonOverlappingCellIDs self = Some s ∧
        _globalOverlappingCellIDs self = Some s ∧
        _globalNonOverlappingCellIDs self = Some s) ∧
  (∃ s, is_range 0 (nx self + 1) s ∧
        _localOverlappingFaceIDs self = Some s ∧
        _localNonOverlappingFaceIDs self = Some s ∧
        _globalOverlappingFaceIDs self = Some s ∧
        _globalNonOverlappingFaceIDs self = Some s).
Proof.
  intros H Hoff Hnf. read_overlap H. rewrite Hoff, Hnf. split.
  - exists (arange 0 (nx self)). split; [apply arange_is_range|].
    repeat split; do 2 f_equal; lia.
  - exists (arange 0 (nx self + 1)). split; [apply arange_is_range|].
    repeat split; do 2 f_equal; lia.
Qed.

Lemma serial_ids_collapse_witness :
  (has_overlap (geometry 0 0 0 5 6) 0 0 ∧ offset (geometry 0 0 0 5 6) = 0 ∧
   numberOfFaces (geometry 0 0 0 5 6) = nx (geometry 0 0 0 5 6) + 1) ∧
  ∃ s, is_range 0 (5 + 1) s ∧
       _localOverlappingFaceIDs (geometry 0 0 0 5 6) = Some s ∧
       _localNonOverlappingFaceIDs (geometry 0 0 0 5 6) = Some s ∧
       _globalOverlappingFaceIDs (geometry 0 0 0 5 6) = Some s ∧
       _globalNonOverlappingFaceIDs (geometry 0 0 0 5 6) = Some s.
Proof.
  split; [repeat split; reflexivity|].
  refine (proj2 (serial_ids_collapse (geometry 0 0 0 5 6) _ _ _));
    [split; reflexivity|reflexivity|reflexivity].
Defined.

(** C10. The local overlapping IDs do not depend on the decomposition: two
    geometries with the same [nx] have the same local overlapping cell IDs,
    and two geometries with the same [numberOfFaces] have the same local
    overlapping face IDs, whatever their offsets and overlaps. *)
Theorem local_overlapping_ignores_decomposition (self other : Grid1D) :
  (nx self = nx other →
   _localOverlappingCellIDs self = _localOverlappingCellIDs other) ∧
  (numberOfFaces self = numberOfFaces other →
   _localOverlappingFaceIDs self = _localOverlappingFaceIDs other).
Proof.
  unfold _localOverlappingCellIDs, _localOverlappingFaceIDs.
  split; intros ->; reflexivity.
Qed.

Lemma local_overlapping_ignores_decomposition_witness :
  (nx workerA = nx workerB ∧
   _localOverlappingCellIDs workerA = _localOverlappingCellIDs workerB) ∧
  (numberOfFaces workerA = numberOfFaces workerB ∧
   _localOverlappingFaceIDs workerA = _localOverlappingFaceIDs workerB).
Proof.
  split; (split; [reflexivity|]).
  - refine (proj1 (local_overlapping_ignores_decomposition workerA workerB) _).
    reflexivity.
  - refine (proj2 (local_overlapping_ignores_decomposition workerA workerB) _).
    reflexivity.
Defined.

(** ** Decomposition over several workers *)

Example decompose_two_workers : decompose [2; 2] = [workerA; workerB].
Proof. reflexivity. Qed.

Section decomposition.
Implicit Types start left k x : Z.
Implicit Types owned rest : list Z.

Lemma globalNonOverlappingCellIDs_geometry off l r n nf :
  _globalNonOverlappingCellIDs (geometry off l r n nf)
  = Some (arange (off + l) (off + n - r)).
Proof. pose proof (has_overlap_geometry off l r n nf) as H. by read_overlap H. Qed.

Lemma globalNonOverlappingFaceIDs_geometry off l r n nf :
  _globalNonOverlappingFaceIDs (geometry off l r n nf)
  = Some (arange (off + l) (off + nf - r)).
Proof. pose proof (has_overlap_geometry off l r n nf) as H. by read_overlap H. Qed.

Lemma workers_cons start left k rest :
  workers start left (k :: rest)
  = geometry (start - left) left (halo_towards rest)
      (left + k + halo_towards rest) (left + k + halo_towards rest + 1)
      :: workers (start + k) 1 rest.
Proof. reflexivity. Qed.

Lemma joins_cons start k k' rest :
  joins start (k :: k' :: rest) = (start + k) :: joins (start + k) (k' :: rest).
Proof. reflexivity. Qed.

Lemma globalNumberOfCells_cons k rest :
  globalNumberOfCells (k :: rest) = k + globalNumberOfCells rest.
Proof. reflexivity. Qed.

Lemma globalNumberOfCells_nonneg owned :
  Forall (λ k, 0 < k) owned → 0 ≤ globalNumberOfCells owned.
Proof.
  induction 1 as [|k rest Hk _ IH]; [done|].
  rewrite globalNumberOfCells_cons. lia.
Qed.

Lemma halo_towards_bound rest :
  Forall (λ k, 0 < k) rest →
  0 ≤ halo_towards rest ≤ globalNumberOfCells rest.
Proof.
  intros Hpos. destruct Hpos as [|k rest Hk Hrest]; [done|].
  pose proof (globalNumberOfCells_nonneg rest Hrest).
  rewrite globalNumberOfCells_cons. simpl. lia.
Qed.

(** The modelled decomposition only produces geometries that meet the
    invariants of the data model. *)
Lemma workers_meet_invariants start left owned :
  Forall (λ k, 0 < k) owned → 0 ≤ left ≤ 1 → left ≤ start →
  Forall (meets_invariants (start + globalNumberOfCells owned))
    (workers start left owned).
Proof.
  intros Hpos. revert start left.
  induction Hpos as [|k rest Hk Hrest IH]; intros start left Hl Hs;
    [constructor|].
  rewrite workers_cons, globalNumberOfCells_cons.
  pose proof (halo_towards_bound rest Hrest) as Hh.
  constructor.
  - exists left, (halo_towards rest).
    split; [apply has_overlap_geometry|]. simpl. lia.
  - replace (start + (k + globalNumberOfCells rest))
      with (start + k + globalNumberOfCells rest) by lia.
    apply IH; lia.
Qed.

(** Worker by worker the owned cells are [start, start + k): in worker order
    the cell ranges concatenate to one range. *)
Lemma workers_cells start left owned :
  Forall (λ k, 0 < k) owned →
  ∃ rs, mapM _globalNonOverlappingCellIDs (workers start left owned) = Some rs ∧
        concat rs = arange start (start + globalNumberOfCells owned).
Proof.
  intros Hpos. revert start left.
  induction Hpos as [|k rest Hk Hrest IH]; intros start left.
  - exists []. split; [done|]. simpl. by rewrite arange_nil by lia.
  - destruct (IH (start + k) 1) as (rs & Hrs & Hcat).
    exists (arange start (start + k) :: rs). split.
    + rewrite workers_cons. cbn [mapM].
      rewrite globalNonOverlappingCellIDs_geometry, Hrs.
      simpl. do 3 f_equal; lia.
    + pose proof (globalNumberOfCells_nonneg rest Hrest) as Hn.
      rewrite globalNumberOfCells_cons. cbn [concat]. rewrite Hcat.
      rewrite (arange_app start (start + k) (start + (k + _))) by lia.
      do 2 f_equal. lia.
Qed.

(** Every worker's face range is [start, start + k]: it ends with the face
    that the next worker's range begins with. *)
Lemma workers_faces start left owned :
  owned ≠ [] → Forall (λ k, 0 < k) owned →
  ∃ rs, mapM _globalNonOverlappingFaceIDs (workers start left owned) = Some rs ∧
        concat rs ≡ₚ arange start (start + globalNumberOfCells owned + 1)
                       ++ joins start owned.
Proof.
  intros Hne Hpos. revert start left.
  induction Hpos as [|k rest Hk Hrest IH]; intros start left; [done|].
  destruct rest as [|k' rest'].
  - exists [arange start (start + k + 1)]. split.
    + rewrite workers_cons. cbn [mapM workers].
      rewrite globalNonOverlappingFaceIDs_geometry.
      simpl. do 3 f_equal; lia.
    + simpl. rewrite !app_nil_r.
      by replace (start + (k + 0) + 1) with (start + k + 1) by lia.
  - destruct (IH ltac:(done) (start + k) 1) as (rs & Hrs & Hcat).
    exists (arange start (start + k + 1) :: rs). split.
    + rewrite workers_cons. cbn [mapM].
      rewrite globalNonOverlappingFaceIDs_geometry, Hrs.
      simpl. do 3 f_equal; lia.
    + pose proof (globalNumberOfCells_nonneg (k' :: rest') Hrest) as Hn.
      rewrite joins_cons, globalNumberOfCells_cons. cbn [concat].
      rewrite Hcat.
      set (n := globalNumberOfCells (k' :: rest')) in *.
      rewrite (arange_app start (start + k) (start + k + 1)) by lia.
      rewrite (arange_app start (start + k) (start + (k + n) + 1)) by lia.
      rewrite (arange_cons (start + k) (start + k + 1)) by lia.
      rewrite (arange_nil (start + k + 1) (start + k + 1)) by lia.
      replace (start + (k + n) + 1) with (start + k + n + 1) by lia.
      rewrite <- !app_assoc. f_equiv. simpl.
      by rewrite Permutation_middle.
Qed.

Lemma joins_interior start owned x :
  Forall (λ k, 0 < k) owned →
  x ∈ joins start owned → start < x < start + globalNumberOfCells owned.
Proof.
  intros Hpos. revert start.
  induction Hpos as [|k rest Hk Hrest IH]; intros start;
    [by intros ?%elem_of_nil|].
  destruct rest as [|k' rest']; [by intros ?%elem_of_nil|].
  rewrite joins_cons, globalNumberOfCells_cons.
  assert (0 < globalNumberOfCells (k' :: rest')) as Hn.
  { inversion Hrest as [|?? Hk' Hrest']; subst.
    pose proof (globalNumberOfCells_nonneg rest' Hrest').
    rewrite globalNumberOfCells_cons. lia. }
  intros [->|Hin]%elem_of_cons; [lia|].
  apply IH in Hin. lia.
Qed.

Lemma joins_NoDup start owned :
  Forall (λ k, 0 < k) owned → NoDup (joins start owned).
Proof.
  intros Hpos. revert start.
  induction Hpos as [|k rest Hk Hrest IH]; intros start; [constructor|].
  destruct rest as [|k' rest']; [constructor|].
  rewrite joins_cons. constructor; [|apply IH].
  intros Hin%joins_interior; [lia|done].
Qed.
End decomposition.

(** C3, as stated, fails for faces: in the two-worker scenario (5 global
    faces) worker A returns the faces 0, 1, 2 and worker B the faces 2, 3, 4;
    face 2, where the slabs meet, is in both ranges. *)
Lemma two_worker_faces_overlap :
  decompose [2; 2] = [workerA; workerB] ∧
  mapM _globalNonOverlappingFaceIDs [workerA; workerB]
    = Some [[0; 1; 2]; [2; 3; 4]] ∧
  ¬ covers_exactly_once [[0; 1; 2]; [2; 3; 4]] (globalNumberOfFaces [2; 2]).
Proof.
  split; [reflexivity|]. split; [reflexivity|].
  intros [Hnd _]. simpl in Hnd.
  apply NoDup_cons_1_2, NoDup_cons_1_2, NoDup_cons_1_1 in Hnd.
  apply Hnd. constructor.
Qed.

(** C3, amended.  For a global grid decomposed with a one-cell halo into
    workers that each own at least one cell: the global non-overlapping cell
    ranges of the workers hold every cell of [0, globalNumberOfCells) exactly
    once and nothing else; the global non-overlapping face ranges cover
    [0, globalNumberOfFaces) without gap and hold nothing else, and taken
    together they are the faces of that range plus one more copy of each
    face at which two neighbouring slabs meet ([joins]: distinct interior
    faces), so such a face is in the ranges of both neighbours. *)
Theorem halo_decomposition_ids (owned : list Z) :
  owned ≠ [] → Forall (λ k, 0 < k) owned →
  (∃ rs, mapM _globalNonOverlappingCellIDs (decompose owned) = Some rs ∧
         covers_exactly_once rs (globalNumberOfCells owned)) ∧
  (∃ rs, mapM _globalNonOverlappingFaceIDs (decompose owned) = Some rs ∧
         (∀ x, x ∈ concat rs ↔ 0 ≤ x < globalNumberOfFaces owned) ∧
         concat rs ≡ₚ arange 0 (globalNumberOfFaces owned) ++ joins 0 owned) ∧
  NoDup (joins 0 owned) ∧
  (∀ x, x ∈ joins 0 owned → 0 < x < globalNumberOfCells owned).
Proof.
  intros Hne Hpos. unfold decompose, globalNumberOfFaces.
  split; [|split; [|split]].
  - destruct (workers_cells 0 0 owned Hpos) as (rs & Hrs & Hcat).
    exists rs. split; [done|]. unfold covers_exactly_once. rewrite Hcat.
    split; [apply NoDup_arange|]. intros x. rewrite elem_of_arange. lia.
  - destruct (workers_faces 0 0 owned Hne Hpos) as (rs & Hrs & Hperm).
    exists rs. split; [done|]. split; [|by rewrite Hperm].
    intros x. rewrite Hperm, elem_of_app, elem_of_arange. split.
    + intros [?|Hin%joins_interior]; [lia| lia |done].
    + intros ?. left. lia.
  - by apply joins_NoDup.
  - intros x Hin%joins_interior; [lia|done].
Qed.

Lemma halo_decomposition_ids_witness :
  ([2; 2] ≠ [] ∧ Forall (λ k, 0 < k) [2; 2]) ∧
  ∃ rs, mapM _globalNonOverlappingCellIDs (decompose [2; 2]) = Some rs ∧
        covers_exactly_once rs (globalNumberOfCells [2; 2]).
Proof.
  split; [split; [done|repeat constructor; lia]|].
  refine (proj1 (halo_decomposition_ids [2; 2] _ _));
    [done|repeat constructor; lia].
Defined.

(** ** Further facts about [arange] *)

Section arange_splits.
Implicit Types lo a b hi : Z.

Lemma arange_split3 lo a b hi :
  lo ≤ a → a ≤ b → b ≤ hi →
  arange lo hi = arange lo a ++ arange a b ++ arange b hi.
Proof.
  intros. by rewrite (arange_app lo a hi), (arange_app a b hi) by lia.
Qed.

Lemma arange_snoc lo hi : lo ≤ hi → arange lo (hi + 1) = arange lo hi ++ [hi].
Proof.
  intros. rewrite (arange_app lo hi (hi + 1)) by lia.
  by rewrite (arange_cons hi), (arange_nil (hi + 1)) by lia.
Qed.

Lemma arange_sublist lo a b hi :
  lo ≤ a → b ≤ hi → arange a b `sublist_of` arange lo hi.
Proof.
  intros. destruct (decide (a ≤ b)).
  - rewrite (arange_split3 lo a b hi) by lia.
    by apply sublist_inserts_l, sublist_inserts_r.
  - rewrite (arange_nil a b) by lia. apply sublist_nil_l.
Qed.

Lemma arange_framed lo a b hi :
  lo ≤ a → a ≤ b → b ≤ hi →
  framed_by (a - lo) (hi - b) (Some (arange a b)) (Some (arange lo hi)).
Proof.
  intros. exists (arange a b), (arange lo hi), (arange lo a), (arange b hi).
  rewrite !length_arange. repeat split; [by apply arange_split3|lia..].
Qed.

Lemma arange_all_within a b lo hi :
  lo ≤ a → b ≤ hi → all_within (Some (arange a b)) lo hi.
Proof.
  intros. eexists; split; [done|].
  apply Forall_forall. intros x ?%elem_of_arange. lia.
Qed.

Lemma arange_gathers d a b n :
  0 ≤ a → b ≤ n →
  gathers (Some (arange a b)) (Some (arange d (d + n)))
    (Some (arange (d + a) (d + b))).
Proof.
  intros Ha Hb. do 3 eexists. do 3 (split; [done|]). split.
  - rewrite !length_arange. f_equal. lia.
  - intros i j [-> Hi]%lookup_arange. split; [lia|].
    assert (arange d (d + n) !! Z.to_nat (a + Z.of_nat i)
            = Some (d + (a + Z.of_nat i))) as Ht by (apply lookup_arange; lia).
    rewrite Ht. split; [by eexists|].
    symmetry. apply lookup_arange. lia.
Qed.
End arange_splits.

(** ** Owned IDs inside the overlapping IDs *)

Section owned_and_ghosts.
Variables (self : Grid1D) (l r : Z).
Hypothesis Hoverlap : has_overlap self l r.
Hypothesis Hl : 0 ≤ l.
Hypothesis Hr : 0 ≤ r.

(** With non-negative overlaps, the non-overlapping IDs are a subsequence of
    the overlapping IDs: locally and globally, for cells and for faces.
    Nothing is asked of [nx], [numberOfFaces] or [offset]. *)
Theorem non_overlapping_subsequence_of_overlapping :
  subsequence_of
    (_localNonOverlappingCellIDs self) (_localOverlappingCellIDs self) ∧
  subsequence_of
    (_globalNonOverlappingCellIDs self) (_globalOverlappingCellIDs self) ∧
  subsequence_of
    (_localNonOverlappingFaceIDs self) (_localOverlappingFaceIDs self) ∧
  subsequence_of
    (_globalNonOverlappingFaceIDs self) (_globalOverlappingFaceIDs self).
Proof.
  read_overlap Hoverlap.
  repeat split; (do 2 eexists; split; [done|split; [done|]]);
    apply arange_sublist; lia.
Qed.

(** With non-negative overlaps that fit ([l + r <= nx]), the overlapping
    cell IDs are [l] ghost IDs, then the non-overlapping cell IDs, then [r]
    ghost IDs, locally and globally; the same for faces when
    [l + r <= numberOfFaces]. *)
Theorem overlapping_is_ghosts_around_owned :
  (l + r ≤ nx self →
   framed_by l r
     (_localNonOverlappingCellIDs self) (_localOverlappingCellIDs self) ∧
   framed_by l r
     (_globalNonOverlappingCellIDs self) (_globalOverlappingCellIDs self)) ∧
  (l + r ≤ numberOfFaces self →
   framed_by l r
     (_localNonOverlappingFaceIDs self) (_localOverlappingFaceIDs self) ∧
   framed_by l r
     (_globalNonOverlappingFaceIDs self) (_globalOverlappingFaceIDs self)).
Proof.
  read_overlap Hoverlap. split; intros Hfit; split.
  - replace l with (l - 0) at 1 by lia.
    replace r with (nx self - (nx self - r)) at 1 by lia.
    apply arange_framed; lia.
  - replace l with (offset self + l - offset self) at 1 by lia.
    replace r with (offset self + nx self - (offset self + nx self - r))
      at 1 by lia.
    apply arange_framed; lia.
  - replace l with (l - 0) at 1 by lia.
    replace r with (numberOfFaces self - (numberOfFaces self - r)) at 1 by lia.
    apply arange_framed; lia.
  - replace l with (offset self + l - offset self) at 1 by lia.
    replace r
      with (offset self + numberOfFaces self
            - (offset self + numberOfFaces self - r)) at 1 by lia.
    apply arange_framed; lia.
Qed.

(** With non-negative overlaps, every local non-overlapping ID is a valid
    position of the overlapping arrays: the local overlapping IDs hold the ID
    itself there, and the global overlapping IDs hold the global
    non-overlapping ID of the same rank.  Indexing the global overlapping
    IDs by the local non-overlapping IDs gives the global non-overlapping
    IDs, for cells and for faces. *)
Theorem local_ids_index_the_overlapping_ids :
  (gathers (_localNonOverlappingCellIDs self)
     (_localOverlappingCellIDs self) (_localNonOverlappingCellIDs self) ∧
   gathers (_localNonOverlappingCellIDs self)
     (_globalOverlappingCellIDs self) (_globalNonOverlappingCellIDs self)) ∧
  (gathers (_localNonOverlappingFaceIDs self)
     (_localOverlappingFaceIDs self) (_localNonOverlappingFaceIDs self) ∧
   gathers (_localNonOverlappingFaceIDs self)
     (_globalOverlappingFaceIDs self) (_globalNonOverlappingFaceIDs self)).
Proof.
  read_overlap Hoverlap. repeat split.
  - pose proof (arange_gathers 0 l (nx self - r) (nx self)) as H.
    rewrite !Z.add_0_l in H. apply H; lia.
  - replace (offset self + nx self - r)
      with (offset self + (nx self - r)) by lia.
    apply arange_gathers; lia.
  - pose proof (arange_gathers 0 l (numberOfFaces self - r)
                  (numberOfFaces self)) as H.
    rewrite !Z.add_0_l in H. apply H; lia.
  - replace (offset self + numberOfFaces self - r)
      with (offset self + (numberOfFaces self - r)) by lia.
    apply arange_gathers; lia.
Qed.

(** On a worker that lies inside a global mesh of [G] cells and [GF] faces
    ([0 <= offset], [offset + nx <= G], [offset + numberOfFaces <= GF]) and
    has non-negative overlaps, no property returns an ID out of bounds:
    local IDs are positions of the local arrays, global IDs are IDs of the
    global mesh. *)
Theorem ids_stay_in_bounds (G GF : Z) :
  0 ≤ offset self → offset self + nx self ≤ G →
  offset self + numberOfFaces self ≤ GF →
  (all_within (_localOverlappingCellIDs self) 0 (nx self) ∧
   all_within (_localNonOverlappingCellIDs self) 0 (nx self) ∧
   all_within (_globalOverlappingCellIDs self) 0 G ∧
   all_within (_globalNonOverlappingCellIDs self) 0 G) ∧
  (all_within (_localOverlappingFaceIDs self) 0 (numberOfFaces self) ∧
   all_within (_localNonOverlappingFaceIDs self) 0 (numberOfFaces self) ∧
   all_within (_globalOverlappingFaceIDs self) 0 GF ∧
   all_within (_globalNonOverlappingFaceIDs self) 0 GF).
Proof.
  intros Hoff HG HGF. read_overlap Hoverlap.
  repeat split; apply arange_all_within; lia.
Qed.

(** When the worker has one face more than cells
    ([numberOfFaces = nx + 1]) and its overlaps fit ([l + r <= nx]), each
    face range is the cell range of the same kind followed by one more ID:
    [nx - r] locally and [offset + nx - r] globally for the
    non-overlapping ranges, [nx] and [offset + nx] for the overlapping
    ones. *)
Theorem face_ids_extend_cell_ids :
  numberOfFaces self = nx self + 1 → l + r ≤ nx self →
  extended_by (nx self - r)
    (_localNonOverlappingCellIDs self) (_localNonOverlappingFaceIDs self) ∧
  extended_by (offset self + nx self - r)
    (_globalNonOverlappingCellIDs self) (_globalNonOverlappingFaceIDs self) ∧
  extended_by (nx self)
    (_localOverlappingCellIDs self) (_localOverlappingFaceIDs self) ∧
  extended_by (offset self + nx self)
    (_globalOverlappingCellIDs self) (_globalOverlappingFaceIDs self).
Proof.
  intros Hnf Hfit. read_overlap Hoverlap. rewrite Hnf.
  repeat split; (eexists; split; [done|]); f_equal;
    rewrite <- arange_snoc by lia; f_equal; lia.
Qed.
End owned_and_ghosts.

Lemma non_overlapping_subsequence_of_overlapping_witness :
  (has_overlap workerB 1 0 ∧ 0 ≤ 1 ∧ 0 ≤ 0) ∧
  subsequence_of
    (_globalNonOverlappingCellIDs workerB) (_globalOverlappingCellIDs workerB).
Proof.
  split; [split; [split; reflexivity|lia]|].
  refine (proj1 (proj2
            (non_overlapping_subsequence_of_overlapping workerB 1 0 _ _ _)));
    [split; reflexivity|lia|lia].
Defined.

Lemma overlapping_is_ghosts_around_owned_witness :
  (has_overlap workerA 0 1 ∧ 0 ≤ 0 ∧ 0 ≤ 1 ∧ 0 + 1 ≤ nx workerA) ∧
  framed_by 0 1
    (_globalNonOverlappingCellIDs workerA) (_globalOverlappingCellIDs workerA).
Proof.
  split; [split; [split; reflexivity|simpl; lia]|].
  refine (proj2 (proj1
            (overlapping_is_ghosts_around_owned workerA 0 1 _ _ _) _));
    [split; reflexivity|lia|lia|simpl; lia].
Defined.

Lemma local_ids_index_the_overlapping_ids_witness :
  (has_overlap workerB 1 0 ∧ 0 ≤ 1 ∧ 0 ≤ 0) ∧
  gathers (_localNonOverlappingCellIDs workerB)
    (_globalOverlappingCellIDs workerB) (_globalNonOverlappingCellIDs workerB).
Proof.
  split; [split; [split; reflexivity|lia]|].
  refine (proj2 (proj1
            (local_ids_index_the_overlapping_ids workerB 1 0 _ _ _)));
    [split; reflexivity|lia|lia].
Defined.

Lemma ids_stay_in_bounds_witness :
  (has_overlap workerB 1 0 ∧ 0 ≤ 1 ∧ 0 ≤ 0 ∧ 0 ≤ offset workerB ∧
   offset workerB + nx workerB ≤ 4 ∧
   offset workerB + numberOfFaces workerB ≤ 5) ∧
  all_within (_globalNonOverlappingFaceIDs workerB) 0 5.
Proof.
  split; [split; [split; reflexivity|simpl; lia]|].
  refine (proj2 (proj2 (proj2 (proj2
            (ids_stay_in_bounds workerB 1 0 _ _ _ 4 5 _ _ _)))));
    [split; reflexivity|lia|lia|simpl; lia..].
Defined.

Lemma face_ids_extend_cell_ids_witness :
  (has_overlap workerA 0 1 ∧ 0 ≤ 0 ∧ 0 ≤ 1 ∧
   numberOfFaces workerA = nx workerA + 1 ∧ 0 + 1 ≤ nx workerA) ∧
  extended_by (0 + 3 - 1)
    (_globalNonOverlappingCellIDs workerA) (_globalNonOverlappingFaceIDs workerA).
Proof.
  split; [split; [split; reflexivity|simpl; lia]|].
  refine (proj1 (proj2
            (face_ids_extend_cell_ids workerA 0 1 _ _ _ _ _)));
    [split; reflexivity|lia|lia|reflexivity|simpl; lia].
Defined.

(** ** Two neighbouring workers

    [a] is the left neighbour of [b]: the first cell that [b] owns
    ([offset b + lb]) is the one after the last cell that [a] owns
    ([offset a + nx a - ra - 1]).  Both own a non-negative number of cells. *)

Section neighbours.
Variables (a b : Grid1D) (la ra lb rb : Z).
Hypothesis Ha : has_overlap a la ra.
Hypothesis Hb : has_overlap b lb rb.
Hypothesis Hjoin : offset b + lb = offset a + nx a - ra.
Hypothesis Hfita : la + ra ≤ nx a.
Hypothesis Hfitb : lb + rb ≤ nx b.

(** The global non-overlapping cell IDs of [a] followed by those of [b] are
    one range, from the first cell owned by [a] to the last owned by [b]:
    no cell is missing at the junction and none is listed twice. *)
Theorem neighbours_cells_concatenate :
  ∃ ca cb,
    _globalNonOverlappingCellIDs a = Some ca ∧
    _globalNonOverlappingCellIDs b = Some cb ∧
    is_range (offset a + la) (offset b + nx b - rb) (ca ++ cb).
Proof.
  read_overlap Ha. read_overlap Hb. do 2 eexists. do 2 (split; [done|]).
  rewrite Hjoin. rewrite <- arange_app by lia. apply arange_is_range.
Qed.

(** When both workers have one face more than cells, their global
    non-overlapping face IDs have exactly one ID in common, the face
    [offset b + lb] at the junction: it is the last face of [a] and the
    first face of [b]. *)
Theorem neighbours_share_the_junction_face :
  numberOfFaces a = nx a + 1 → numberOfFaces b = nx b + 1 →
  ∃ fa fb,
    _globalNonOverlappingFaceIDs a = Some fa ∧
    _globalNonOverlappingFaceIDs b = Some fb ∧
    last fa = Some (offset b + lb) ∧ head fb = Some (offset b + lb) ∧
    ∀ x, x ∈ fa → x ∈ fb → x = offset b + lb.
Proof.
  intros Hnfa Hnfb. read_overlap Ha. read_overlap Hb. rewrite Hnfa, Hnfb.
  do 2 eexists. do 2 (split; [done|]). split; [|split].
  - replace (offset a + (nx a + 1) - ra) with (offset b + lb + 1) by lia.
    rewrite arange_snoc by lia. apply last_snoc.
  - by rewrite arange_cons by lia.
  - intros x ?%elem_of_arange ?%elem_of_arange. lia.
Qed.

(** When each worker owns at least as many cells as the other holds ghosts
    on the common side, the ghosts are the neighbour's cells: every global
    overlapping cell ID of [a] from the junction on is a global
    non-overlapping cell ID of [b] and none of [a], and every global
    overlapping cell ID of [b] before the junction is a global
    non-overlapping cell ID of [a] and none of [b]. *)
Theorem ghosts_are_owned_by_the_neighbour :
  ra ≤ nx b - lb - rb → lb ≤ nx a - la - ra →
  ∃ oa ob ca cb,
    _globalOverlappingCellIDs a = Some oa ∧
    _globalOverlappingCellIDs b = Some ob ∧
    _globalNonOverlappingCellIDs a = Some ca ∧
    _globalNonOverlappingCellIDs b = Some cb ∧
    (∀ x, x ∈ oa → offset b + lb ≤ x → x ∈ cb ∧ x ∉ ca) ∧
    (∀ x, x ∈ ob → x < offset b + lb → x ∈ ca ∧ x ∉ cb).
Proof.
  intros Hra Hlb. read_overlap Ha. read_overlap Hb.
  do 4 eexists. do 4 (split; [done|]).
  split; intros x Hx%elem_of_arange Hside; rewrite !elem_of_arange; lia.
Qed.
End neighbours.

Lemma neighbours_cells_concatenate_witness :
  (has_overlap workerA 0 1 ∧ has_overlap workerB 1 0 ∧
   offset workerB + 1 = offset workerA + nx workerA - 1 ∧
   0 + 1 ≤ nx workerA ∧ 1 + 0 ≤ nx workerB) ∧
  ∃ ca cb,
    _globalNonOverlappingCellIDs workerA = Some ca ∧
    _globalNonOverlappingCellIDs workerB = Some cb ∧
    is_range (offset workerA + 0) (offset workerB + nx workerB - 0) (ca ++ cb).
Proof.
  split; [repeat split; (reflexivity || (simpl; lia))|].
  refine (neighbours_cells_concatenate workerA workerB 0 1 1 0 _ _ _ _ _);
    [split; reflexivity|split; reflexivity|reflexivity|simpl; lia..].
Defined.

Lemma neighbours_share_the_junction_face_witness :
  (has_overlap workerA 0 1 ∧ has_overlap workerB 1 0 ∧
   offset workerB + 1 = offset workerA + nx workerA - 1 ∧
   0 + 1 ≤ nx workerA ∧ 1 + 0 ≤ nx workerB ∧
   numberOfFaces workerA = nx workerA + 1 ∧
   numberOfFaces workerB = nx workerB + 1) ∧
  ∃ fa fb,
    _globalNonOverlappingFaceIDs workerA = Some fa ∧
    _globalNonOverlappingFaceIDs workerB = Some fb ∧
    last fa = Some (offset workerB + 1) ∧ head fb = Some (offset workerB + 1) ∧
    ∀ x, x ∈ fa → x ∈ fb → x = offset workerB + 1.
Proof.
  split; [repeat split; (reflexivity || (simpl; lia))|].
  refine (neighbours_share_the_junction_face
            workerA workerB 0 1 1 0 _ _ _ _ _ _ _);
    [split; reflexivity|split; reflexivity|reflexivity
    |simpl; lia|simpl; lia|reflexivity|reflexivity].
Defined.

Lemma ghosts_are_owned_by_the_neighbour_witness :
  (has_overlap workerA 0 1 ∧ has_overlap workerB 1 0 ∧
   offset workerB + 1 = offset workerA + nx workerA - 1 ∧
   1 ≤ nx workerB - 1 - 0 ∧ 1 ≤ nx workerA - 0 - 1) ∧
  ∃ oa ob ca cb,
    _globalOverlappingCellIDs workerA = Some oa ∧
    _globalOverlappingCellIDs workerB = Some ob ∧
    _globalNonOverlappingCellIDs workerA = Some ca ∧
    _globalNonOverlappingCellIDs workerB = Some cb ∧
    (∀ x, x ∈ oa → offset workerB + 1 ≤ x → x ∈ cb ∧ x ∉ ca) ∧
    (∀ x, x ∈ ob → x < offset workerB + 1 → x ∈ ca ∧ x ∉ cb).
Proof.
  split; [repeat split; (reflexivity || (simpl; lia))|].
  refine (ghosts_are_owned_by_the_neighbour workerA workerB 0 1 1 0 _ _ _ _ _);
    [split; reflexivity|split; reflexivity|reflexivity|simpl; lia..].
Defined.

(** ** Missing keys *)

(** The four non-overlapping properties fail (Python's [KeyError]) exactly
    when the overlap dict lacks ['left'] or ['right'], so they fail or
    return together, whatever [nx], [numberOfFaces] and [offset] are. *)
Theorem non_overlapping_fails_iff_key_missing (self : Grid1D) :
  (_localNonOverlappingCellIDs self = None ↔ lacks_overlap_key self) ∧
  (_globalNonOverlappingCellIDs self = None ↔ lacks_overlap_key self) ∧
  (_localNonOverlappingFaceIDs self = None ↔ lacks_overlap_key self) ∧
  (_globalNonOverlappingFaceIDs self = None ↔ lacks_overlap_key self).
Proof.
  unfold _localNonOverlappingCellIDs, _globalNonOverlappingCellIDs,
    _localNonOverlappingFaceIDs, _globalNonOverlappingFaceIDs,
    lacks_overlap_key.
  destruct (overlap self !! "left") as [l|], (overlap self !! "right") as [r|];
    simpl; intuition congruence.
Qed.

(** ** [__repr__] *)

Lemma append_char_inj (s1 s2 : string) (c : Ascii.ascii) :
  s1 +:+ String c "" = s2 +:+ String c "" → s1 = s2.
Proof.
  revert s2. induction s1 as [|c1 s1 IH]; intros [|c2 s2] Heq; simpl in Heq.
  - done.
  - injection Heq as _ Heq. by destruct s2.
  - injection Heq as _ Heq. by destruct s1.
  - injection Heq as -> Heq. f_equal. by apply IH.
Qed.

Example repr_with_nx :
  __repr__ "Grid1D" (mkArgs "1.0" (Some 3) 2) = "Grid1D(dx=1.0, nx=3)".
Proof. reflexivity. Qed.

Example repr_without_nx :
  __repr__ "Grid1D" (mkArgs "(1, 2, 3)" None 2) = "Grid1D(dx=(1, 2, 3))".
Proof. reflexivity. Qed.

(** For one class and one printed [dx], two meshes have the same [__repr__]
    exactly when they were built with the same [nx] ([None] included): the
    text tells every [nx] apart, and it does not show [overlap]. *)
Theorem repr_shows_nx_and_not_overlap (class_name : string) (a b : Args) :
  args_dx a = args_dx b →
  (__repr__ class_name a = __repr__ class_name b ↔ args_nx a = args_nx b).
Proof.
  intros Hdx. unfold __repr__. rewrite Hdx. split; [|by intros ->].
  destruct (args_nx a) as [n|], (args_nx b) as [m|]; intros Heq;
    do 3 apply (inj (String.app _)) in Heq; [|by simpl in Heq..].
  apply (inj (String.app _)), append_char_inj in Heq.
  f_equal. exact (inj pretty _ _ Heq).
Qed.

Lemma repr_shows_nx_and_not_overlap_witness :
  args_dx (mkArgs "1.0" (Some 3) 1) = args_dx (mkArgs "1.0" (Some 3) 2) ∧
  __repr__ "Grid1D" (mkArgs "1.0" (Some 3) 1)
  = __repr__ "Grid1D" (mkArgs "1.0" (Some 3) 2).
Proof.
  split; [reflexivity|].
  refine (proj2 (repr_shows_nx_and_not_overlap "Grid1D"
                   (mkArgs "1.0" (Some 3) 1) (mkArgs "1.0" (Some 3) 2) _) _);
    reflexivity.
Defined.
